(** * The UCI front end of the engine (src/uci.cpp)

    A shallow embedding of the protocol layer: the move and score codec
    ([UCI::square], [UCI::move], [UCI::to_move], [UCI::value]), the
    handlers of the [position], [setoption] and [go] commands, the [bench]
    replay and one iteration of [UCI::loop].

    Conventions.
    - C++ [int], [Value], [Move], [Square] and [TimePoint] values are [Z];
      [uint64_t] arithmetic is written with its reduction modulo 2^64;
      integer division is C++ division, truncating toward zero ([Z.quot]).
    - [std::string] is [string]; a [char] computed from an [int] keeps the
      low eight bits.
    - An [istringstream] that is only read with [operator>>] is the list of
      its whitespace separated words ([tokenize]); extraction of a word
      pops the head of the list. The stream [is] of the source is named
      [iss] here.
    - Everything declared in headers that are not part of uci.cpp (types.h,
      position.h, movegen.h, search.h, thread.h, misc.h) is a field of one of
      the interface classes [Types] and [Engine]. *)

From stdpp Require Import gmap strings list.
From Stdlib Require Import ZArith Ascii String DecimalString DecimalPos DecimalZ Lia.
From Equations Require Import Equations.
From Equations.Prop Require Import Logic.

Open Scope Z_scope.

(** ** Characters, strings and streams *)

Module Text.

(** [isspace] in the "C" locale: space, and the controls 9 to 13. *)
Definition isspace (c : ascii) : bool :=
  let n := N_of_ascii c in
  (n =? 32)%N || ((9 <=? n)%N && (n <=? 13)%N).

(** [tolower] in the "C" locale. *)
Definition tolower (c : ascii) : ascii :=
  let n := N_of_ascii c in
  if ((65 <=? n)%N && (n <=? 90)%N)%bool then ascii_of_N (n + 32) else c.

(** [char(i)] for an [int] [i]: the low eight bits. *)
Definition char_of_int (i : Z) : ascii := ascii_of_N (Z.to_N (i mod 256)).

(** [s[n] = f(s[n])], for [n] below the length of [s]. *)
Fixpoint update_at (n : nat) (f : ascii -> ascii) (s : string) : string :=
  match s, n with
  | EmptyString, _ => EmptyString
  | String c s', O => String (f c) s'
  | String c s', S n' => String c (update_at n' f s')
  end.

(** [operator<<] on an integer: decimal digits, a leading minus sign for a
    negative number. *)
Definition string_of_Z (z : Z) : string := NilZero.string_of_int (Z.to_int z).

(** The words of a line, as successive [is >> token] extractions return them.
    [cur] is the word being read. *)
Fixpoint split_ws (cur : string) (s : string) : list string :=
  match s with
  | EmptyString => if String.eqb cur "" then [] else [cur]
  | String c s' =>
      if isspace c
      then (if String.eqb cur "" then split_ws "" s' else cur :: split_ws "" s')
      else split_ws (cur +:+ String c "") s'
  end.

Definition tokenize (line : string) : list string := split_ws "" line.

(** [acc += (acc.empty() ? "" : " ") + token], the step both loops of
    [setoption] repeat. *)
Definition append_word (acc token : string) : string :=
  acc +:+ ((if String.eqb acc "" then "" else " ") +:+ token).

(** The spec's "space-joined": the words with one space between neighbours. *)
Fixpoint join_words (ws : list string) : string :=
  match ws with
  | [] => ""
  | [w] => w
  | w :: ws' => w +:+ " " +:+ join_words ws'
  end.

(** A decimal numeral with an optional sign, as [operator>>] reads one into an
    integer: the sign, then the longest run of digits. The result is the value
    and the characters left in the stream; [None] when there is no digit. *)
Definition is_digit (c : ascii) : bool :=
  let n := N_of_ascii c in ((48 <=? n)%N && (n <=? 57)%N)%bool.

Fixpoint read_digits (acc : Z) (seen : bool) (s : string) : option (Z * string) :=
  match s with
  | String c s' =>
      if is_digit c
      then read_digits (10 * acc + (Z.of_N (N_of_ascii c) - 48)) true s'
      else if seen then Some (acc, s) else None
  | EmptyString => if seen then Some (acc, s) else None
  end.

Definition read_int (s : string) : option (Z * string) :=
  match s with
  | String "-" s' =>
      match read_digits 0 false s' with
      | Some (n, r) => Some (- n, r)
      | None => None
      end
  | String "+" s' => read_digits 0 false s'
  | _ => read_digits 0 false s
  end.

End Text.

Import Text.

(** ** Declarations of types.h *)

(** [Move], [Square], [MoveType], [PieceType] and [Value] are [int]
    enumerations. uci.cpp only uses the accessors and constants below. *)
Class Types := {
  file_of : Z -> Z;
  rank_of : Z -> Z;
  from_sq : Z -> Z;
  to_sq : Z -> Z;
  type_of : Z -> Z;
  promotion_type : Z -> Z;
  PROMOTION : Z;
  MOVE_NONE : Z;
  MOVE_NULL : Z;
  VALUE_MATE : Z;
  VALUE_INFINITE : Z;
  MAX_PLY : Z;
  PawnValueEg : Z
}.

(** ** Declarations of search.h, position.h, movegen.h, thread.h, misc.h *)

(** The integer members of [Search::LimitsType] that [go] reads a number
    into, one per keyword. *)
Inductive LimitField :=
| Fwtime | Fbtime | Fwinc | Fbinc | Fmovestogo
| Fdepth | Fnodes | Fmovetime | Fmate | Fperft.

(** [Search::LimitsType], with the members uci.cpp touches: [time[WHITE]],
    [time[BLACK]], [inc[WHITE]], [inc[BLACK]] and the scalar members. *)
Record LimitsType := {
  searchmoves : list Z;
  time_white : Z;
  time_black : Z;
  inc_white : Z;
  inc_black : Z;
  movestogo : Z;
  depth : Z;
  nodes : Z;
  movetime : Z;
  mate : Z;
  perft : Z;
  infinite : Z;
  startTime : Z
}.

(** The collaborators of the protocol layer. [Position], [StateInfo] and
    [Thread] are the classes of position.h and thread.h; [World] is the state
    kept behind the globals [Threads], [Search] and [TT] and behind the clock.
    A member function that writes through a reference returns the new
    contents. *)
Class Engine := {
  Position : Type;
  StateInfo : Type;
  Thread : Type;
  World : Type;
  (** [StateInfo()] *)
  StateInfo_new : StateInfo;
  (** [pos.set(fen, isChess960, si, th)]: the position is rebuilt from its
      arguments alone, and [*si] is filled in. *)
  Position_set : string -> bool -> StateInfo -> Thread -> Position * StateInfo;
  (** [pos.do_move(m, newSt)] *)
  do_move : Position -> Z -> StateInfo -> Position * StateInfo;
  (** [pos.flip()] *)
  Position_flip : Position -> Position;
  (** [os << pos] *)
  Position_print : Position -> string;
  (** [MoveList<LEGAL>(pos)], in iteration order *)
  legal_moves : Position -> list Z;
  (** [Eval::trace(pos)] *)
  Eval_trace : Position -> string;
  (** [LimitsType()] *)
  LimitsType_new : LimitsType;
  (** the least and greatest value of the integer type of a member *)
  limit_min : LimitField -> Z;
  limit_max : LimitField -> Z;
  (** [now()]: the clock is read, and the world moves on *)
  now : World -> Z * World;
  (** [Threads.main()], and the [Thread] made by [UCI::loop] *)
  Threads_main : World -> Thread;
  uiThread : Thread;
  (** [Threads.start_thinking(pos, states, limits, ponderMode)]; [states] is
      passed by reference *)
  start_thinking :
    Position -> option (list StateInfo) -> LimitsType -> bool -> World ->
    option (list StateInfo) * World;
  (** [Threads.main()->wait_for_search_finished()] *)
  wait_for_search_finished : World -> World;
  (** [Threads.nodes_searched()], a [uint64_t] *)
  nodes_searched : World -> Z;
  (** [Threads.stop = true] *)
  Threads_stop : World -> World;
  (** [Threads.main()->ponder = false] *)
  ponder_off : World -> World;
  (** [Search::clear()] *)
  Search_clear : World -> World;
  (** [system("cls")] *)
  system_cls : World -> World;
  (** [dbg_print()] *)
  dbg_print : World -> World;
  (** [engine_info(to_uci)] *)
  engine_info : bool -> string;
  (** [os << Options] *)
  Options_print : gmap string string -> string;
  (** [setup_bench(pos, args)], the script of the benchmark *)
  setup_bench : Position -> list string -> list string
}.

(** [StateListPtr], a [std::unique_ptr<std::deque<StateInfo>>]: [None] is
    the null pointer. *)
Abbreviation StateListPtr := (option (list StateInfo)).

(** ** Move and score codec *)

Module UCI.
Section Codec.
Context {T : Types}.

(** [UCI::value]: the score as the protocol prints it. The assertion
    [-VALUE_INFINITE < v && v < VALUE_INFINITE] is the precondition
    [value_pre]. *)
Definition value_pre (v : Z) : Prop := - VALUE_INFINITE < v < VALUE_INFINITE.

Definition value (v : Z) : string :=
  if Z.abs v <? VALUE_MATE - MAX_PLY
  then "cp " +:+ string_of_Z (Z.quot (v * 100) PawnValueEg)
  else "mate " +:+
       string_of_Z (Z.quot (if 0 <? v then VALUE_MATE - v + 1 else - VALUE_MATE - v) 2).

(** [UCI::square]: file letter, rank digit. *)
Definition square (s : Z) : string :=
  String (char_of_int (97 + file_of s)) (String (char_of_int (49 + rank_of s)) "").

(** [" pmsnrk"[pt]]; index 7 is the terminating NUL of the literal. An index
    outside the literal, which C++ leaves undefined, reads as NUL too. *)
Definition piece_letter (pt : Z) : ascii :=
  match String.get (Z.to_nat pt) " pmsnrk" with
  | Some c => c
  | None => zero
  end.

(** [UCI::move]: coordinate notation. *)
Definition move (m : Z) : string :=
  let from := from_sq m in
  let to := to_sq m in
  if m =? MOVE_NONE then "(none)"
  else if m =? MOVE_NULL then "0000"
  else
    let mv := square from +:+ square to in
    if type_of m =? PROMOTION
    then mv +:+ String (piece_letter (promotion_type m)) ""
    else mv.

(** The first statement of [UCI::to_move]: a promotion letter sent in upper
    case is put in lower case. *)
Definition lower_promotion (str : string) : string :=
  if (String.length str =? 5)%nat then update_at 4 tolower str else str.

(** The [for] loop of [UCI::to_move] over the legal moves. *)
Fixpoint scan_moves (str : string) (moves : list Z) : Z :=
  match moves with
  | [] => MOVE_NONE
  | m :: rest => if String.eqb str (move m) then m else scan_moves str rest
  end.

End Codec.

Section Decode.
Context {T : Types} {E : Engine}.

(** [UCI::to_move]: the legal move written [str], or [MOVE_NONE]. *)
Definition to_move (pos : Position) (str : string) : Z :=
  scan_moves (lower_promotion str) (legal_moves pos).

End Decode.
End UCI.

(** ** The option registry *)

(** Modelled from the spec: the option registry [Options] (ucioption.h and
    ucioption.cpp are not part of uci.cpp), "a mapping from option name to
    current string value" that supports an existence check, a read and a
    write by name. *)
Abbreviation OptionsMap := (gmap string string).

(** Modelled from the spec: the existence check [Options.count(name)] of the
    registry. *)
Definition Options_count (o : OptionsMap) (name : string) : bool :=
  bool_decide (is_Some (o !! name)).

(** Modelled from the spec: the write [Options[name] = value], which replaces
    the current value of the entry. *)
Definition Options_assign (o : OptionsMap) (name value : string) : OptionsMap :=
  <[name := value]> o.

(** Modelled from the spec: the read of an entry as the variant flag
    [Options["UCI_Chess960"]] that [position] hands to [pos.set]; the flag is
    set when the current value is the text [true]. *)
Definition Options_flag (o : OptionsMap) (name : string) : bool :=
  bool_decide (o !! name = Some "true"%string).

(** ** Output *)

(** The texts printed by the commands [dev], [devhelp], [psqt], [type] and
    [evaluate] are literals of the source; they are kept by name. *)
Inductive StaticText := TextDev | TextDevhelp | TextPsqt | TextType | TextEvaluate.

(** One statement writing to [sync_cout] or [cerr]: its text, up to the
    closing [sync_endl] or [endl]. *)
Inductive Output :=
| Line (text : string)
| Static (t : StaticText).

Definition nl : string := String (ascii_of_N 10) "".

Local Infix "==" := String.eqb (at level 70, no associativity).

(** ** Command handlers *)

Section Handlers.
Context {T : Types} {E : Engine}.

(** What the handlers share: the [pos] and [states] of [UCI::loop], the
    globals, and the two output streams. *)
Record Session := {
  pos : Position;
  states : StateListPtr;
  options : OptionsMap;
  world : World;
  cout : list Output;
  cerr : list Output
}.

(** FEN string of the initial position. *)
Definition StartFEN : string := "rnsmksnr/8/pppppppp/8/8/PPPPPPPP/8/RNSKMSNR w 0 1".

(** *** position *)

(** [while (is >> token && token != "moves") fen += token + " ";] *)
Fixpoint read_fen (fen : string) (iss : list string) : string * list string :=
  match iss with
  | [] => (fen, [])
  | token :: iss' =>
      if token == "moves" then (fen, iss') else read_fen (fen +:+ (token +:+ " ")) iss'
  end.

(** The move list loop: [states->emplace_back(); pos.do_move(m, states->back());]
    for as long as a word is read and is a legal move. *)
Fixpoint play_moves (iss : list string) (p : Position) (sts : list StateInfo)
  : Position * list StateInfo :=
  match iss with
  | [] => (p, sts)
  | token :: iss' =>
      let m := UCI.to_move p token in
      if m =? MOVE_NONE then (p, sts)
      else
        let '(p', st) := do_move p m StateInfo_new in
        play_moves iss' p' (sts ++ [st])
  end.

(** Lines 71 to 79: a new one element deque, [pos.set], the move list. *)
Definition set_and_play (fen : string) (iss : list string) (s : Session) : Session :=
  let '(p, si) :=
    Position_set fen (Options_flag (options s) "UCI_Chess960") StateInfo_new
      (Threads_main (world s)) in
  let '(p', sts) := play_moves iss p [si] in
  {| pos := p'; states := Some sts; options := options s; world := world s;
     cout := cout s; cerr := cerr s |}.

Definition position (iss : list string) (s : Session) : Session :=
  match iss with
  | [] => s
  | token :: is1 =>
      if token == "startpos" then set_and_play StartFEN (tail is1) s
      else if token == "fen" then
        let '(fen, is2) := read_fen "" is1 in set_and_play fen is2 s
      else s
  end.

(** *** setoption *)

(** [while (is >> token && token != "value") name += ...;] *)
Fixpoint read_name (name : string) (iss : list string) : string * list string :=
  match iss with
  | [] => (name, [])
  | token :: iss' =>
      if token == "value" then (name, iss') else read_name (append_word name token) iss'
  end.

(** [while (is >> token) value += ...;] *)
Fixpoint read_value (value : string) (iss : list string) : string :=
  match iss with
  | [] => value
  | token :: iss' => read_value (append_word value token) iss'
  end.

Definition setoption (iss : list string) (s : Session) : Session :=
  let '(name, is2) := read_name "" (tail iss) in
  let value := read_value "" is2 in
  if Options_count (options s) name
  then {| pos := pos s; states := states s;
          options := Options_assign (options s) name value;
          world := world s; cout := cout s; cerr := cerr s |}
  else {| pos := pos s; states := states s; options := options s;
          world := world s;
          cout := cout s ++ [Line ("No such option: " +:+ name)];
          cerr := cerr s |}.

(** *** go *)

(** The branch of the [if] chain of [go] a word selects. *)
Inductive GoWord :=
| WSearchmoves
| WLimit (f : LimitField)
| WInfinite
| WPonder
| WOther.

Definition go_word (token : string) : GoWord :=
  if token == "searchmoves" then WSearchmoves
  else if token == "wtime" then WLimit Fwtime
  else if token == "btime" then WLimit Fbtime
  else if token == "winc" then WLimit Fwinc
  else if token == "binc" then WLimit Fbinc
  else if token == "movestogo" then WLimit Fmovestogo
  else if token == "depth" then WLimit Fdepth
  else if token == "nodes" then WLimit Fnodes
  else if token == "movetime" then WLimit Fmovetime
  else if token == "mate" then WLimit Fmate
  else if token == "perft" then WLimit Fperft
  else if token == "infinite" then WInfinite
  else if token == "ponder" then WPonder
  else WOther.

Definition set_searchmoves (v : list Z) (l : LimitsType) : LimitsType :=
  {| searchmoves := v; time_white := time_white l; time_black := time_black l;
     inc_white := inc_white l; inc_black := inc_black l; movestogo := movestogo l;
     depth := depth l; nodes := nodes l; movetime := movetime l; mate := mate l;
     perft := perft l; infinite := infinite l; startTime := startTime l |}.

Definition set_infinite (v : Z) (l : LimitsType) : LimitsType :=
  {| searchmoves := searchmoves l; time_white := time_white l;
     time_black := time_black l; inc_white := inc_white l; inc_black := inc_black l;
     movestogo := movestogo l; depth := depth l; nodes := nodes l;
     movetime := movetime l; mate := mate l; perft := perft l; infinite := v;
     startTime := startTime l |}.

Definition set_startTime (v : Z) (l : LimitsType) : LimitsType :=
  {| searchmoves := searchmoves l; time_white := time_white l;
     time_black := time_black l; inc_white := inc_white l; inc_black := inc_black l;
     movestogo := movestogo l; depth := depth l; nodes := nodes l;
     movetime := movetime l; mate := mate l; perft := perft l;
     infinite := infinite l; startTime := v |}.

(** The member a numeric keyword stores into. *)
Definition set_limit (f : LimitField) (v : Z) (l : LimitsType) : LimitsType :=
  {| searchmoves := searchmoves l;
     time_white := match f with Fwtime => v | _ => time_white l end;
     time_black := match f with Fbtime => v | _ => time_black l end;
     inc_white := match f with Fwinc => v | _ => inc_white l end;
     inc_black := match f with Fbinc => v | _ => inc_black l end;
     movestogo := match f with Fmovestogo => v | _ => movestogo l end;
     depth := match f with Fdepth => v | _ => depth l end;
     nodes := match f with Fnodes => v | _ => nodes l end;
     movetime := match f with Fmovetime => v | _ => movetime l end;
     mate := match f with Fmate => v | _ => mate l end;
     perft := match f with Fperft => v | _ => perft l end;
     infinite := infinite l;
     startTime := startTime l |}.


(** [is >> n] for an integer [n] of range [lo..hi]. [Extracted v iss']: [v]
    was read and the stream goes on as [iss'] (characters of the word that
    follow the numeral stay in the stream). [Failed w]: the stream is in
    the failed state, every later extraction fails; [w] is what was
    written to [n], nothing at the end of the input, 0 for a word that is
    no numeral, the nearest bound for a numeral out of range. *)
Inductive Extraction :=
| Extracted (v : Z) (iss' : list string)
| Failed (w : option Z).

Definition extract_int (lo hi : Z) (iss : list string) : Extraction :=
  match iss with
  | [] => Failed None
  | word :: iss' =>
      match read_int word with
      | None => Failed (Some 0)
      | Some (v, rest) =>
          if v <? lo then Failed (Some lo)
          else if hi <? v then Failed (Some hi)
          else Extracted v (if rest == "" then iss' else rest :: iss')
      end
  end.

(** The inner loop of the [searchmoves] branch:
    [while (is >> token) limits.searchmoves.push_back(UCI::to_move(pos, token));] *)
Fixpoint searchmoves_loop (p : Position) (iss : list string) (l : LimitsType)
  : LimitsType :=
  match iss with
  | [] => l
  | token :: iss' =>
      searchmoves_loop p iss'
        (set_searchmoves (searchmoves l ++ [UCI.to_move p token]) l)
  end.

(** The [while (is >> token)] loop of [go]. After the inner loop of
    [searchmoves], and after a failed extraction, the stream yields no
    further word and the loop is left. *)
Equations? go_loop (p : Position) (iss : list string) (limits : LimitsType)
  (ponderMode : bool) : LimitsType * bool by wf (List.length iss) lt :=
  go_loop p [] limits ponderMode := (limits, ponderMode);
  go_loop p (token :: iss') limits ponderMode with go_word token => {
    | WSearchmoves := (searchmoves_loop p iss' limits, ponderMode);
    | WLimit f with inspect (extract_int (limit_min f) (limit_max f) iss') => {
        | exist _ (Extracted v iss'') _ :=
            go_loop p iss'' (set_limit f v limits) ponderMode;
        | exist _ (Failed (Some w)) _ := (set_limit f w limits, ponderMode);
        | exist _ (Failed None) _ := (limits, ponderMode) };
    | WInfinite := go_loop p iss' (set_infinite 1 limits) ponderMode;
    | WPonder := go_loop p iss' limits true;
    | WOther := go_loop p iss' limits ponderMode }.
Proof.
  all: simpl; try lia.
  match goal with H : extract_int _ _ ?i = _ |- _ =>
    destruct i as [|word rest]; simpl in H; [discriminate|];
    destruct (read_int word) as [[n r]|]; [|discriminate];
    destruct (n <? limit_min f); [discriminate|];
    destruct (limit_max f <? n); [discriminate|];
    injection H as _ <-; destruct (r == ""); simpl; lia
  end.
Qed.

Definition go (iss : list string) (s : Session) : Session :=
  let '(t, w) := now (world s) in
  let '(limits, ponderMode) :=
    go_loop (pos s) iss (set_startTime t LimitsType_new) false in
  let '(sts, w') := start_thinking (pos s) (states s) limits ponderMode w in
  {| pos := pos s; states := sts; options := options s; world := w';
     cout := cout s; cerr := cerr s |}.

(** *** bench *)

Definition with_world (w : World) (s : Session) : Session :=
  {| pos := pos s; states := states s; options := options s; world := w;
     cout := cout s; cerr := cerr s |}.

Definition with_pos (p : Position) (s : Session) : Session :=
  {| pos := p; states := states s; options := options s; world := world s;
     cout := cout s; cerr := cerr s |}.

Definition put_cout (o : Output) (s : Session) : Session :=
  {| pos := pos s; states := states s; options := options s; world := world s;
     cout := cout s ++ [o]; cerr := cerr s |}.

Definition put_cerr (o : Output) (s : Session) : Session :=
  {| pos := pos s; states := states s; options := options s; world := world s;
     cout := cout s; cerr := cerr s ++ [o] |}.

(** Reduction of a [uint64_t] result. *)
Definition uint64 (z : Z) : Z := z mod 2 ^ 64.

(** The locals of [bench] that live across the iterations of its loop.
    [b_elapsed] is [elapsed], which holds the starting time until the loop is
    over. *)
Record BenchLocals := {
  b_token : string;
  b_nodes : Z;
  b_cnt : Z;
  b_elapsed : Z
}.

(** [count_if(list.begin(), list.end(), [](string s) { return s.find("go ") == 0; })] *)
Definition count_go (list : list string) : Z :=
  Z.of_nat (List.length (filter (fun s => String.prefix "go " s = true) list)).

(** The word the [if] chain of one iteration looks at: [is >> skipws >> token]
    leaves [token] as it was when the line has no word. *)
Definition bench_token (cmd : string) (b : BenchLocals) : string :=
  match tokenize cmd with
  | [] => b_token b
  | token :: _ => token
  end.

(** One iteration of [for (const auto& cmd : list)]. *)
Definition bench_step (num : Z) (cmd : string) (st : BenchLocals * Session)
  : BenchLocals * Session :=
  let '(b, s) := st in
  let token := bench_token cmd b in
  let iss := tail (tokenize cmd) in
  if token == "go" then
    let s1 :=
      put_cerr (Line (nl +:+ "Position: " +:+ string_of_Z (b_cnt b) +:+ "/"
                      +:+ string_of_Z num)) s in
    let s2 := go iss s1 in
    let w := wait_for_search_finished (world s2) in
    ({| b_token := token; b_nodes := uint64 (b_nodes b + nodes_searched w);
        b_cnt := uint64 (b_cnt b + 1); b_elapsed := b_elapsed b |},
     with_world w s2)
  else if token == "setoption" then
    ({| b_token := token; b_nodes := b_nodes b; b_cnt := b_cnt b;
        b_elapsed := b_elapsed b |}, setoption iss s)
  else if token == "position" then
    ({| b_token := token; b_nodes := b_nodes b; b_cnt := b_cnt b;
        b_elapsed := b_elapsed b |}, position iss s)
  else if token == "ucinewgame" then
    let '(t, w) := now (Search_clear (world s)) in
    ({| b_token := token; b_nodes := b_nodes b; b_cnt := b_cnt b;
        b_elapsed := t |}, with_world w s)
  else
    ({| b_token := token; b_nodes := b_nodes b; b_cnt := b_cnt b;
        b_elapsed := b_elapsed b |}, s).

Definition bench_loop (num : Z) (list : list string) (st : BenchLocals * Session)
  : BenchLocals * Session :=
  fold_left (fun st cmd => bench_step num cmd st) list st.

(** The state at the head of the loop: [elapsed = now()]. *)
Definition bench_begin (s : Session) : BenchLocals * Session :=
  let '(t, w) := now (world s) in
  ({| b_token := ""; b_nodes := 0; b_cnt := 1; b_elapsed := t |}, with_world w s).

(** [elapsed = now() - elapsed + 1], with the time read after the loop. *)
Definition bench_elapsed (st : BenchLocals * Session) : Z :=
  fst (now (world (snd st))) - b_elapsed (fst st) + 1.

(** The summary written to [cerr]; [1000 * nodes / elapsed] is computed in
    [uint64_t]. *)
Definition bench_summary (elapsed nodes : Z) : string :=
  nl +:+ "===========================" +:+
  nl +:+ "Total time (ms) : " +:+ string_of_Z elapsed +:+
  nl +:+ "Nodes searched  : " +:+ string_of_Z nodes +:+
  nl +:+ "Nodes/second    : " +:+
  string_of_Z (uint64 (1000 * nodes) / uint64 elapsed).

Definition bench_end (st : BenchLocals * Session) : Session :=
  let w := dbg_print (snd (now (world (snd st)))) in
  put_cerr (Line (bench_summary (bench_elapsed st) (b_nodes (fst st))))
    (with_world w (snd st)).

Definition bench (args : list string) (s : Session) : Session :=
  let list := setup_bench (pos s) args in
  bench_end (bench_loop (count_go list) list (bench_begin s)).

(** *** UCI::loop *)

(** The body of the [do] loop for the line [cmd]; the result carries [token],
    which the loop condition reads. *)
Definition loop_step (cmd : string) (s : Session) : string * Session :=
  let token := match tokenize cmd with [] => "" | t :: _ => t end in
  let iss := tail (tokenize cmd) in
  (token,
   if (token == "quit") || (token == "stop") then with_world (Threads_stop (world s)) s
   else if token == "ponderhit" then with_world (ponder_off (world s)) s
   else if token == "uci" then
     put_cout (Line ("id name " +:+ engine_info true +:+ nl
                     +:+ Options_print (options s) +:+ nl +:+ "uciok")) s
   else if token == "setoption" then setoption iss s
   else if token == "go" then go iss s
   else if token == "position" then position iss s
   else if token == "ucinewgame" then with_world (Search_clear (world s)) s
   else if token == "isready" then put_cout (Line "readyok") s
   else if token == "dev" then put_cout (Static TextDev) s
   else if token == "devhelp" then put_cout (Static TextDevhelp) s
   else if token == "psqt" then put_cout (Static TextPsqt) s
   else if token == "type" then put_cout (Static TextType) s
   else if token == "evaluate" then put_cout (Static TextEvaluate) s
   else if token == "clear" then with_world (system_cls (world s)) s
   else if token == "flip" then with_pos (Position_flip (pos s)) s
   else if token == "bench" then bench iss s
   else if token == "d" then put_cout (Line (Position_print (pos s))) s
   else if token == "eval" then put_cout (Line (Eval_trace (pos s))) s
   else put_cout (Line ("Unknown command: " +:+ cmd)) s).

(** The state [UCI::loop] starts from. *)
Definition loop_init (o : OptionsMap) (w : World) : Session :=
  let '(p, si) := Position_set StartFEN false StateInfo_new uiThread in
  {| pos := p; states := Some [si]; options := o; world := w;
     cout := []; cerr := [] |}.

(** The loop with [argc == 1]: [stdin] holds the lines [getline] will
    return; at the end of the input [cmd] is ["quit"]. *)
Fixpoint interactive (stdin : list string) (s : Session) : Session :=
  match stdin with
  | [] => snd (loop_step "quit" s)
  | cmd :: stdin' =>
      let '(token, s') := loop_step cmd s in
      if token == "quit" then s' else interactive stdin' s'
  end.

(** [UCI::loop(argc, argv)], [args] being [argv[1]] to [argv[argc - 1]]:
    command line arguments are one-shot. *)
Definition loop (args stdin : list string) (o : OptionsMap) (w : World) : Session :=
  match args with
  | [] => interactive stdin (loop_init o w)
  | _ :: _ =>
      snd (loop_step (fold_left (fun cmd a => cmd +:+ (a +:+ " ")) args "")
             (loop_init o w))
  end.

End Handlers.

(** ** A stand-in engine *)

(** The handlers are run on concrete inputs against this instance of the two
    interfaces. The layout of a move (destination in bits 0 to 5, origin in
    bits 6 to 11, promotion piece in bits 12 and 13, move type in bits 14 and
    15) and the score constants are those of the engine family; the board is
    reduced to the text it was set from and the moves played on it, with a
    fixed list of legal moves for each side. *)
Module Sample.

Definition types : Types := {|
  file_of s := Z.land s 7;
  rank_of s := Z.shiftr s 3;
  from_sq m := Z.land (Z.shiftr m 6) 63;
  to_sq m := Z.land m 63;
  type_of m := Z.land m (Z.shiftl 3 14);
  promotion_type m := Z.land (Z.shiftr m 12) 3 + 2;
  PROMOTION := Z.shiftl 1 14;
  MOVE_NONE := 0;
  MOVE_NULL := 65;
  VALUE_MATE := 32000;
  VALUE_INFINITE := 32001;
  MAX_PLY := 246;
  PawnValueEg := 206
|}.

(** [make_move(from, to)] and [make<PROMOTION>(from, to, pt)] *)
Definition make_move (from to : Z) : Z := Z.shiftl from 6 + to.
Definition make_promotion (from to pt : Z) : Z :=
  Z.shiftl 1 14 + Z.shiftl (pt - 2) 12 + Z.shiftl from 6 + to.

(** [make_square(f, r)], files and ranks counted from 0 *)
Definition sq (f r : Z) : Z := Z.shiftl r 3 + f.

Definition e3e4 : Z := make_move (sq 4 2) (sq 4 3).
Definition d3d4 : Z := make_move (sq 3 2) (sq 3 3).
Definition e6e5 : Z := make_move (sq 4 5) (sq 4 4).
Definition d6d5 : Z := make_move (sq 3 5) (sq 3 4).
Definition d1d2 : Z := make_move (sq 3 0) (sq 3 1).
Definition a5a6m : Z := make_promotion (sq 0 4) (sq 0 5) 2.

Record Board := {
  board_fen : string;
  board_chess960 : bool;
  board_played : list Z
}.

Record Clock := {
  clock_ms : Z;
  clock_nodes : Z
}.

(** From the initial position the sides push a centre pawn in turn; in every
    other position the side to move has a pawn on a5 to promote and a king
    step. *)
Definition board_legal (b : Board) : list Z :=
  if String.eqb (board_fen b) "rnsmksnr/8/pppppppp/8/8/PPPPPPPP/8/RNSKMSNR w 0 1"
  then (if Nat.even (List.length (board_played b)) then [e3e4; d3d4] else [e6e5; d6d5])
  else [a5a6m; d1d2].

Definition int_min (f : LimitField) : Z :=
  match f with
  | Fmovestogo | Fdepth | Fmate | Fperft => - 2 ^ 31
  | _ => - 2 ^ 63
  end.

Definition int_max (f : LimitField) : Z :=
  match f with
  | Fmovestogo | Fdepth | Fmate | Fperft => 2 ^ 31 - 1
  | _ => 2 ^ 63 - 1
  end.

(** A search takes 5 ms and visits [10 + depth] nodes; clearing the caches
    takes 7 ms. *)
Definition engine : Engine := {|
  Position := Board;
  StateInfo := nat;
  Thread := nat;
  World := Clock;
  StateInfo_new := O;
  Position_set fen chess960 _ _ :=
    ({| board_fen := fen; board_chess960 := chess960; board_played := [] |}, O);
  do_move b m _ :=
    ({| board_fen := board_fen b; board_chess960 := board_chess960 b;
        board_played := board_played b ++ [m] |},
     S (List.length (board_played b)));
  Position_flip b := b;
  Position_print b := board_fen b;
  legal_moves := board_legal;
  Eval_trace _ := "";
  LimitsType_new :=
    {| searchmoves := []; time_white := 0; time_black := 0; inc_white := 0;
       inc_black := 0; movestogo := 0; depth := 0; nodes := 0; movetime := 0;
       mate := 0; perft := 0; infinite := 0; startTime := 0 |};
  limit_min := int_min;
  limit_max := int_max;
  now w := (clock_ms w, w);
  Threads_main _ := 1%nat;
  uiThread := O;
  start_thinking _ _ limits _ w :=
    (None, {| clock_ms := clock_ms w + 5; clock_nodes := 10 + depth limits |});
  wait_for_search_finished w := w;
  nodes_searched := clock_nodes;
  Threads_stop w := w;
  ponder_off w := w;
  Search_clear w := {| clock_ms := clock_ms w + 7; clock_nodes := 0 |};
  system_cls w := w;
  dbg_print w := w;
  engine_info _ := "engine";
  Options_print _ := "";
  setup_bench _ args := ["position startpos"; "go depth 1"; "ucinewgame"; "go depth 2"]
|}.

(** The session a run starts from, with one registered option. *)
Definition session : @Session engine :=
  @loop_init engine {["UCI_Chess960" := "false"]} {| clock_ms := 0; clock_nodes := 0 |}.


End Sample.

(** ** Notions used to state the properties *)

Section Notions.
Context {T : Types} {E : Engine}.

(** The FEN text [position] hands to [pos.set] for the words [ws] that follow
    [fen]: every word followed by one space. *)
Fixpoint fen_text (ws : list string) : string :=
  match ws with
  | [] => ""
  | w :: ws' => w +:+ " " +:+ fen_text ws'
  end.

(** The forms of the [position] command: the words after [position], the FEN
    text they stand for and the words of the move list. *)
Inductive position_command : list string -> string -> list string -> Prop :=
| startpos_alone : position_command ["startpos"%string] StartFEN []
| startpos_moves mvs :
    position_command ("startpos"%string :: "moves"%string :: mvs) StartFEN mvs
| fen_alone ws :
    ~ In "moves"%string ws ->
    position_command ("fen"%string :: ws) (fen_text ws) []
| fen_moves ws mvs :
    ~ In "moves"%string ws ->
    position_command ("fen"%string :: ws ++ "moves"%string :: mvs) (fen_text ws) mvs.

(** The position after the moves [ms] were made in turn, and the
    [StateInfo] each of them filled. *)
Fixpoint apply_moves (ms : list Z) (p : Position) : Position :=
  match ms with
  | [] => p
  | m :: ms' => apply_moves ms' (fst (do_move p m StateInfo_new))
  end.

Fixpoint moves_states (ms : list Z) (p : Position) : list StateInfo :=
  match ms with
  | [] => []
  | m :: ms' =>
      snd (do_move p m StateInfo_new)
      :: moves_states ms' (fst (do_move p m StateInfo_new))
  end.

(** [decoded p ws ms]: every word of [ws] is the text of a move that is legal
    where it is played, starting from [p]; [ms] are those moves. *)
Inductive decoded : Position -> list string -> list Z -> Prop :=
| decoded_nil p : decoded p [] []
| decoded_cons p w ws ms :
    UCI.to_move p w <> MOVE_NONE ->
    decoded (fst (do_move p (UCI.to_move p w) StateInfo_new)) ws ms ->
    decoded p (w :: ws) (UCI.to_move p w :: ms).

(** A line without a word: every character is white space. *)
Fixpoint blank (line : string) : bool :=
  match line with
  | EmptyString => true
  | String c line' => isspace c && blank line'
  end.

(** The words of a [setoption] command that make up the name and the value:
    those after the first word up to the first [value], and those after it. *)
Fixpoint name_words (ws : list string) : list string :=
  match ws with
  | [] => []
  | w :: ws' => if String.eqb w "value" then [] else w :: name_words ws'
  end.

Fixpoint value_words (ws : list string) : list string :=
  match ws with
  | [] => []
  | w :: ws' => if String.eqb w "value" then ws' else value_words ws'
  end.

(** The keyword of each numeric member of the limits. *)
Definition limit_keyword (f : LimitField) : string :=
  match f with
  | Fwtime => "wtime" | Fbtime => "btime" | Fwinc => "winc" | Fbinc => "binc"
  | Fmovestogo => "movestogo" | Fdepth => "depth" | Fnodes => "nodes"
  | Fmovetime => "movetime" | Fmate => "mate" | Fperft => "perft"
  end.


(** [numeral f w v]: the word [w] is a numeral, of value [v], that the member
    [f] can hold. *)
Definition numeral (f : LimitField) (w : string) (v : Z) : Prop :=
  read_int w = Some (v, ""%string) /\ limit_min f <= v <= limit_max f.

(** The clauses of a [go] command other than [searchmoves]: a numeric keyword
    with its numeral, or any other single word. *)
Inductive go_clauses : list string -> Prop :=
| go_clauses_nil : go_clauses []
| go_clauses_limit f w v ws :
    numeral f w v -> go_clauses ws -> go_clauses (limit_keyword f :: w :: ws)
| go_clauses_word w ws :
    w <> "searchmoves"%string -> (forall f, w <> limit_keyword f) ->
    go_clauses ws -> go_clauses (w :: ws).




End Notions.

(** ** Properties of the codec *)

Section CodecProperties.
Context {T : Types} {E : Engine}.




Lemma scan_moves_none str moves :
  (forall m, In m moves -> UCI.move m <> str) ->
  UCI.scan_moves str moves = MOVE_NONE.
Proof.
  induction moves as [|m0 rest IH]; simpl; [reflexivity|].
  intros Hall.
  destruct (String.eqb_spec str (UCI.move m0)) as [Heq|Hne].
  - exfalso. apply (Hall m0); [now left | now symmetry].
  - apply IH. intros m Hin. apply Hall. now right.
Qed.



End CodecProperties.



Section ScoreProperties.
Context {T : Types}.

Lemma value_cp v :
  Z.abs v < VALUE_MATE - MAX_PLY ->
  UCI.value v = "cp " +:+ string_of_Z (Z.quot (v * 100) PawnValueEg).
Proof.
  intros H. unfold UCI.value.
  now destruct (Z.ltb_spec (Z.abs v) (VALUE_MATE - MAX_PLY)); [|lia].
Qed.

Lemma value_mate_win v :
  VALUE_MATE - MAX_PLY <= Z.abs v -> 0 < v ->
  UCI.value v = "mate " +:+ string_of_Z (Z.quot (VALUE_MATE - v + 1) 2).
Proof.
  intros Habs Hpos. unfold UCI.value.
  destruct (Z.ltb_spec (Z.abs v) (VALUE_MATE - MAX_PLY)); [lia|].
  now destruct (Z.ltb_spec 0 v); [|lia].
Qed.

Lemma value_mate_loss v :
  VALUE_MATE - MAX_PLY <= Z.abs v -> v <= 0 ->
  UCI.value v = "mate " +:+ string_of_Z (Z.quot (- VALUE_MATE - v) 2).
Proof.
  intros Habs Hneg. unfold UCI.value.
  destruct (Z.ltb_spec (Z.abs v) (VALUE_MATE - MAX_PLY)); [lia|].
  now destruct (Z.ltb_spec 0 v); [lia|].
Qed.

(** C4, as the code has it. For a score inside the asserted range: below the
    threshold [VALUE_MATE - MAX_PLY] in absolute value it is printed as
    [cp], scaled by 100 over [PawnValueEg]; a win in [k] plies,
    [VALUE_MATE - k], is printed as a mate in [(k + 1) / 2] moves and a loss in
    [k] plies, [k - VALUE_MATE], as a mate in [- (k / 2)] moves. So mate in one
    is [mate 1], being mated in one move (two plies) is [mate -1], and the
    negation of the mate in one score is [mate 0]. *)
Theorem value_encodes
  (Hply : 2 <= MAX_PLY) (Hmate : MAX_PLY < VALUE_MATE)
  (Hinf : VALUE_MATE < VALUE_INFINITE) :
  (forall v, UCI.value_pre v -> Z.abs v < VALUE_MATE - MAX_PLY ->
     UCI.value v = "cp " +:+ string_of_Z (Z.quot (v * 100) PawnValueEg))
  /\ (forall k, 1 <= k <= MAX_PLY ->
        UCI.value_pre (VALUE_MATE - k)
        /\ UCI.value (VALUE_MATE - k) = "mate " +:+ string_of_Z ((k + 1) / 2))
  /\ (forall k, 0 <= k <= MAX_PLY ->
        UCI.value_pre (k - VALUE_MATE)
        /\ UCI.value (k - VALUE_MATE) = "mate " +:+ string_of_Z (- (k / 2)))
  /\ UCI.value (VALUE_MATE - 1) = "mate 1"%string
  /\ UCI.value (2 - VALUE_MATE) = "mate -1"%string
  /\ UCI.value (- (VALUE_MATE - 1)) = "mate 0"%string.
Proof.
  assert (Hwin : forall k, 1 <= k <= MAX_PLY ->
            UCI.value (VALUE_MATE - k) = "mate " +:+ string_of_Z ((k + 1) / 2)).
  { intros k Hk. rewrite value_mate_win by lia.
    replace (VALUE_MATE - (VALUE_MATE - k) + 1) with (k + 1) by lia.
    now rewrite Z.quot_div_nonneg by lia. }
  assert (Hloss : forall k, 0 <= k <= MAX_PLY ->
            UCI.value (k - VALUE_MATE) = "mate " +:+ string_of_Z (- (k / 2))).
  { intros k Hk. rewrite value_mate_loss by lia.
    replace (- VALUE_MATE - (k - VALUE_MATE)) with (- k) by lia.
    rewrite Z.quot_opp_l by lia.
    now rewrite Z.quot_div_nonneg by lia. }
  repeat split.
  - intros v _ Hv. now apply value_cp.
  - unfold UCI.value_pre in *; lia.
  - unfold UCI.value_pre in *; lia.
  - now apply Hwin.
  - unfold UCI.value_pre in *; lia.
  - unfold UCI.value_pre in *; lia.
  - now apply Hloss.
  - now rewrite (Hwin 1) by lia.
  - now rewrite (Hloss 2) by lia.
  - replace (- (VALUE_MATE - 1)) with (1 - VALUE_MATE) by lia.
    now rewrite (Hloss 1) by lia.
Qed.

End ScoreProperties.

(** C4 with the constants of the stand-in engine (mate 32000, infinite 32001,
    246 plies, pawn 206): one pawn is [cp 100], mate in one is [mate 1]. *)
Lemma value_encodes_witness :
  UCI.value (T := Sample.types) 206 = "cp 100"%string
  /\ UCI.value (T := Sample.types) 31999 = "mate 1"%string
  /\ UCI.value (T := Sample.types) (-31998) = "mate -1"%string.
Proof.
  assert (H2 : 2 <= MAX_PLY (Types := Sample.types)) by (vm_compute; discriminate).
  assert (Hm : MAX_PLY (Types := Sample.types) < VALUE_MATE (Types := Sample.types))
    by reflexivity.
  assert (Hi : VALUE_MATE (Types := Sample.types)
               < VALUE_INFINITE (Types := Sample.types)) by reflexivity.
  destruct (value_encodes (T := Sample.types) H2 Hm Hi)
    as [Hcp [_ [_ [Hone [Hlost _]]]]].
  split; [|split].
  - rewrite (Hcp 206); [reflexivity | vm_compute; split; reflexivity | reflexivity].
  - exact Hone.
  - exact Hlost.
Defined.

(** C4 fails as stated: the negation of the score of a mate in one, -31999
    with a mate value of 32000, is printed [mate 0], since (-32000 + 31999) / 2
    is 0 in C++; [mate -1] is the text of -31998. *)
Lemma value_negated_counterexample :
  UCI.value_pre (T := Sample.types) (- (VALUE_MATE (Types := Sample.types) - 1))
  /\ UCI.value (T := Sample.types) (VALUE_MATE (Types := Sample.types) - 1)
     = "mate 1"%string
  /\ UCI.value (T := Sample.types) (- (VALUE_MATE (Types := Sample.types) - 1))
     = "mate 0"%string
  /\ UCI.value (T := Sample.types) (- (VALUE_MATE (Types := Sample.types) - 1))
     <> "mate -1"%string.
Proof.
  split; [|split; [|split]].
  - vm_compute. split; reflexivity.
  - vm_compute. reflexivity.
  - vm_compute. reflexivity.
  - vm_compute. discriminate.
Qed.

(** ** Properties of the position command *)

Section PositionProperties.
Context {T : Types} {E : Engine}.

Lemma append_assoc (a b c : string) : (a +:+ b) +:+ c = a +:+ (b +:+ c).
Proof.
  induction a as [|x a IH]; [reflexivity|].
  change (String x ((a +:+ b) +:+ c) = String x (a +:+ (b +:+ c))).
  now rewrite IH.
Qed.

Lemma append_empty_r (a : string) : a +:+ "" = a.
Proof.
  induction a as [|x a IH]; [reflexivity|].
  change (String x (a +:+ "") = String x a).
  now rewrite IH.
Qed.

Lemma read_fen_all ws acc :
  ~ In "moves"%string ws -> read_fen acc ws = (acc +:+ fen_text ws, []).
Proof.
  revert acc. induction ws as [|w ws IH]; intros acc Hnot; simpl.
  - now rewrite append_empty_r.
  - destruct (String.eqb_spec w "moves") as [->|Hne].
    + exfalso. apply Hnot. now left.
    + rewrite IH by (intros Hin; apply Hnot; now right).
      now rewrite !append_assoc.
Qed.

Lemma read_fen_moves ws mvs acc :
  ~ In "moves"%string ws ->
  read_fen acc (ws ++ "moves"%string :: mvs) = (acc +:+ fen_text ws, mvs).
Proof.
  revert acc. induction ws as [|w ws IH]; intros acc Hnot; simpl.
  - now rewrite append_empty_r.
  - destruct (String.eqb_spec w "moves") as [->|Hne].
    + exfalso. apply Hnot. now left.
    + rewrite IH by (intros Hin; apply Hnot; now right).
      now rewrite !append_assoc.
Qed.

(** The move list loop plays the longest prefix of the words that decode, one
    after the other, and adds one [StateInfo] for each. *)
Lemma play_moves_prefix iss p sts :
  exists pre rest ms,
    iss = pre ++ rest
    /\ decoded p pre ms
    /\ (rest = [] \/
        exists w r, rest = w :: r /\ UCI.to_move (apply_moves ms p) w = MOVE_NONE)
    /\ play_moves iss p sts = (apply_moves ms p, sts ++ moves_states ms p).
Proof.
  revert p sts. induction iss as [|w iss IH]; intros p sts.
  - exists [], [], []. simpl. rewrite app_nil_r.
    repeat split; [constructor | now left].
  - simpl. destruct (Z.eqb_spec (UCI.to_move p w) MOVE_NONE) as [Hnone|Hsome].
    + exists [], (w :: iss), []. simpl. rewrite app_nil_r.
      repeat split; [constructor|]. right. now exists w, iss.
    + destruct (do_move p (UCI.to_move p w) StateInfo_new) as [p' st] eqn:Hdo.
      destruct (IH p' (sts ++ [st])) as (pre & rest & ms & -> & Hdec & Hrest & Hplay).
      exists (w :: pre), rest, (UCI.to_move p w :: ms). simpl.
      rewrite Hdo. simpl. repeat split.
      * constructor; [exact Hsome|]. now rewrite Hdo.
      * exact Hrest.
      * rewrite Hplay. now rewrite <- app_assoc.
Qed.

Lemma decoded_length p ws ms : decoded p ws ms -> List.length ms = List.length ws.
Proof. induction 1; simpl; congruence. Qed.

Lemma moves_states_length ms p : List.length (moves_states ms p) = List.length ms.
Proof. revert p. induction ms as [|m ms IH]; intros p; simpl; congruence. Qed.

(** What [position] does for a command of one of the four forms. *)
Lemma position_set_and_play iss fen mvs s :
  position_command iss fen mvs -> position iss s = set_and_play fen mvs s.
Proof.
  intros [|mvs'|ws Hws|ws mvs' Hws]; unfold position; simpl.
  - reflexivity.
  - reflexivity.
  - now rewrite read_fen_all.
  - now rewrite read_fen_moves.
Qed.

(** [position] leaves everything but [pos] and [states] as it was. *)
Lemma position_frame iss s :
  options (position iss s) = options s
  /\ world (position iss s) = world s
  /\ cout (position iss s) = cout s
  /\ cerr (position iss s) = cerr s.
Proof.
  unfold position, set_and_play.
  destruct iss as [|token iss]; [tauto|].
  destruct (token == "startpos").
  - destruct (Position_set _ _ _ _), (play_moves _ _ _). simpl. tauto.
  - destruct (token == "fen"); [|tauto].
    destruct (read_fen _ _), (Position_set _ _ _ _), (play_moves _ _ _).
    simpl. tauto.
Qed.

(** C2. After a [position] command of the form [startpos], [startpos moves
    ...], [fen ...] or [fen ... moves ...], the position is the one set from
    the FEN text with the longest prefix [pre] of the move words that decode,
    each against the position it is played in, applied in order; the word
    after [pre], if there is one, does not decode and the rest is ignored;
    and the state list holds the [StateInfo] of the set-up followed by one
    per applied move, so its length is 1 plus the number of applied moves. *)
Theorem position_replays iss fen mvs s
  (Hcmd : position_command iss fen mvs) :
  let start :=
    Position_set fen (Options_flag (options s) "UCI_Chess960") StateInfo_new
      (Threads_main (world s)) in
  exists pre rest ms,
    mvs = pre ++ rest
    /\ decoded (fst start) pre ms
    /\ (rest = [] \/
        exists w r, rest = w :: r
                    /\ UCI.to_move (apply_moves ms (fst start)) w = MOVE_NONE)
    /\ pos (position iss s) = apply_moves ms (fst start)
    /\ states (position iss s) = Some (snd start :: moves_states ms (fst start))
    /\ List.length (snd start :: moves_states ms (fst start))
       = S (List.length ms)
    /\ List.length ms = List.length pre.
Proof.
  intros start. rewrite (position_set_and_play _ _ _ _ Hcmd).
  unfold set_and_play. fold start.
  destruct start as [p0 si0] eqn:Hstart. simpl.
  destruct (play_moves_prefix mvs p0 [si0]) as (pre & rest & ms & Hsplit & Hdec & Hrest & Hplay).
  exists pre, rest, ms. rewrite Hplay. simpl.
  repeat split; try assumption.
  - now rewrite moves_states_length.
  - exact (decoded_length _ _ _ Hdec).
Qed.

(** A command that begins with [startpos] or [fen] only reads the options and
    the globals of the session it starts from. *)
Lemma position_forgets iss1 iss2 s :
  head iss2 = Some "startpos"%string \/ head iss2 = Some "fen"%string ->
  position iss2 (position iss1 s) = position iss2 s.
Proof.
  destruct (position_frame iss1 s) as (Ho & Hw & Hout & Herr).
  intros Hfirst.
  destruct iss2 as [|token rest]; [destruct Hfirst; discriminate|].
  generalize dependent (position iss1 s). intros s1 Ho Hw Hout Herr.
  destruct Hfirst as [[= ->]|[= ->]]; unfold position; simpl.
  - unfold set_and_play. now rewrite Ho, Hw, Hout, Herr.
  - destruct (read_fen "" rest) as [fen is2].
    unfold set_and_play. now rewrite Ho, Hw, Hout, Herr.
Qed.

(** C3, as the code has it. A [position] command that begins with [startpos]
    or [fen] gives the same session whatever [position] command came before
    it: [pos] and [states] are rebuilt from the options and the FEN text,
    [states] starting from a single new element. In particular
    [position startpos] after [position startpos moves e2e4 e7e5] gives what
    [position startpos] alone gives. *)
Theorem position_resets iss1 iss2 s
  (Hfirst : head iss2 = Some "startpos"%string \/ head iss2 = Some "fen"%string) :
  position iss2 (position iss1 s) = position iss2 s
  /\ position ["startpos"%string]
       (position ["startpos"; "moves"; "e2e4"; "e7e5"]%string s)
     = position ["startpos"%string] s
  /\ states (position ["startpos"%string] s)
     = Some [snd (Position_set StartFEN
                    (Options_flag (options s) "UCI_Chess960") StateInfo_new
                    (Threads_main (world s)))].
Proof.
  split; [exact (position_forgets iss1 iss2 s Hfirst)|]. split.
  - apply position_forgets. now left.
  - unfold position, set_and_play. simpl.
    now destruct (Position_set _ _ _ _).
Qed.

End PositionProperties.

(** C2 on the stand-in engine: of [e3e4 e6e5 zz d3d4] the first two words are
    played and the state list has three elements. *)
Lemma position_replays_witness :
  position_command
    ["startpos"; "moves"; "e3e4"; "e6e5"; "zz"; "d3d4"]%string
    StartFEN ["e3e4"; "e6e5"; "zz"; "d3d4"]%string
  /\ pos (position (T := Sample.types) (E := Sample.engine)
            ["startpos"; "moves"; "e3e4"; "e6e5"; "zz"; "d3d4"]%string
            Sample.session)
     = {| Sample.board_fen := StartFEN; Sample.board_chess960 := false;
          Sample.board_played := [Sample.e3e4; Sample.e6e5] |}
  /\ exists ms,
       states (position (T := Sample.types) (E := Sample.engine)
                 ["startpos"; "moves"; "e3e4"; "e6e5"; "zz"; "d3d4"]%string
                 Sample.session)
       = Some (O :: moves_states (E := Sample.engine) ms
                      (pos Sample.session))
       /\ List.length (O :: moves_states (E := Sample.engine) ms
                              (pos Sample.session)) = S (List.length ms).
Proof.
  assert (Hcmd : position_command
                   ["startpos"; "moves"; "e3e4"; "e6e5"; "zz"; "d3d4"]%string
                   StartFEN ["e3e4"; "e6e5"; "zz"; "d3d4"]%string)
    by apply startpos_moves.
  split; [exact Hcmd|]. split; [vm_compute; reflexivity|].
  destruct (position_replays (T := Sample.types) (E := Sample.engine)
              _ _ _ Sample.session Hcmd)
    as (pre & rest & ms & _ & _ & _ & _ & Hstates & Hlen & _).
  exists ms. split; [exact Hstates | exact Hlen].
Defined.

(** C3 on the stand-in engine, with two moves it can play. *)
Lemma position_resets_witness :
  (head ["startpos"%string] = Some "startpos"%string
   \/ head ["startpos"%string] = Some "fen"%string)
  /\ position (T := Sample.types) (E := Sample.engine) ["startpos"%string]
       (position (T := Sample.types) (E := Sample.engine)
          ["startpos"; "moves"; "e3e4"; "e6e5"]%string Sample.session)
     = position (T := Sample.types) (E := Sample.engine) ["startpos"%string]
         Sample.session.
Proof.
  assert (Hfirst : head ["startpos"%string] = Some "startpos"%string
                   \/ head ["startpos"%string] = Some "fen"%string)
    by (left; reflexivity).
  split; [exact Hfirst|].
  exact (proj1 (position_resets (T := Sample.types) (E := Sample.engine)
                  ["startpos"; "moves"; "e3e4"; "e6e5"]%string _
                  Sample.session Hfirst)).
Defined.

(** C3 fails as stated: a [position] command whose first word is neither
    [startpos] nor [fen] is left at once and resets nothing. After
    [position startpos moves e3e4] the line [position moves e6e5] keeps the
    position after e3e4 and its two states, while the same line given first
    leaves the initial position and its one state. *)
Lemma position_other_word_counterexample :
  let first :=
    snd (loop_step (T := Sample.types) (E := Sample.engine)
           "position startpos moves e3e4" Sample.session) in
  let after :=
    snd (loop_step (T := Sample.types) (E := Sample.engine)
           "position moves e6e5" first) in
  let alone :=
    snd (loop_step (T := Sample.types) (E := Sample.engine)
           "position moves e6e5" Sample.session) in
  states after = Some [0%nat; 1%nat]
  /\ states alone = Some [0%nat]
  /\ Sample.board_played (pos after) = [Sample.e3e4]
  /\ Sample.board_played (pos alone) = []
  /\ after <> alone.
Proof.
  vm_compute. repeat split; discriminate.
Qed.

(** ** Properties of the dispatcher and of setoption *)

Section DispatchProperties.
Context {T : Types} {E : Engine}.

Lemma tokenize_blank line : blank line = true -> tokenize line = [].
Proof.
  unfold tokenize. induction line as [|c line IH]; simpl; [reflexivity|].
  intros [Hc Hline]%andb_prop. rewrite Hc. auto.
Qed.

Lemma interactive_step cmd stdin s r :
  loop_step cmd s = r ->
  interactive (cmd :: stdin) s
  = if fst r == "quit" then snd r else interactive stdin (snd r).
Proof. intros <-. reflexivity. Qed.

(** C5, as the code has it. A line without a word leaves [token] empty, which
    no branch of the dispatcher matches but the last: the line is reported as
    an unknown command on [cout], nothing else changes, and the interactive
    loop goes on with the next line. *)
Theorem loop_step_blank cmd s
  (Hblank : blank cmd = true) :
  loop_step cmd s = (""%string, put_cout (Line ("Unknown command: " +:+ cmd)) s)
  /\ cout (snd (loop_step cmd s)) = cout s ++ [Line ("Unknown command: " +:+ cmd)]
  /\ pos (snd (loop_step cmd s)) = pos s
  /\ states (snd (loop_step cmd s)) = states s
  /\ options (snd (loop_step cmd s)) = options s
  /\ world (snd (loop_step cmd s)) = world s
  /\ cerr (snd (loop_step cmd s)) = cerr s
  /\ forall stdin,
       interactive (cmd :: stdin) s
       = interactive stdin (put_cout (Line ("Unknown command: " +:+ cmd)) s).
Proof.
  assert (Hstep : loop_step cmd s
                  = (""%string, put_cout (Line ("Unknown command: " +:+ cmd)) s)).
  { unfold loop_step. now rewrite (tokenize_blank cmd Hblank). }
  split; [exact Hstep|].
  repeat split; try (rewrite Hstep; reflexivity).
  intros stdin. now rewrite (interactive_step _ stdin _ _ Hstep).
Qed.

Lemma split_ws_words cur line : Forall (fun w => w <> ""%string) (split_ws cur line).
Proof.
  revert cur. induction line as [|c line IH]; intros cur; simpl.
  - destruct (String.eqb_spec cur ""); [constructor|].
    constructor; [assumption | constructor].
  - destruct (isspace c); [|apply IH].
    destruct (String.eqb_spec cur ""); [apply IH|].
    constructor; [assumption | apply IH].
Qed.

Lemma tokenize_words line : Forall (fun w => w <> ""%string) (tokenize line).
Proof. apply split_ws_words. Qed.

(** The accumulation [acc += (acc.empty() ? "" : " ") + token] over words
    that are not empty joins them with single spaces. *)
Lemma append_word_nonempty acc w : w <> ""%string -> append_word acc w <> ""%string.
Proof.
  intros Hw. unfold append_word.
  destruct acc as [|c acc]; [|discriminate].
  destruct w; [congruence | discriminate].
Qed.

Lemma read_value_join_from acc ws :
  acc <> ""%string -> Forall (fun w => w <> ""%string) ws ->
  read_value acc ws
  = match ws with [] => acc | _ => acc +:+ " " +:+ join_words ws end.
Proof.
  revert acc. induction ws as [|w ws IH]; intros acc Hacc Hws; [reflexivity|].
  inversion Hws as [|? ? Hw Hws']; subst. simpl read_value.
  rewrite IH; [|now apply append_word_nonempty|assumption].
  unfold append_word.
  destruct (String.eqb_spec acc ""); [contradiction|].
  destruct ws as [|w' ws]; [reflexivity|].
  now rewrite !append_assoc.
Qed.

Lemma read_value_join ws :
  Forall (fun w => w <> ""%string) ws -> read_value "" ws = join_words ws.
Proof.
  destruct ws as [|w ws]; [reflexivity|].
  intros Hws. inversion Hws as [|? ? Hw Hws']; subst. simpl read_value.
  rewrite read_value_join_from; [|now apply append_word_nonempty|assumption].
  unfold append_word. simpl.
  destruct ws; reflexivity.
Qed.

Lemma read_name_value acc ws :
  read_name acc ws = (read_value acc (name_words ws), value_words ws).
Proof.
  revert acc. induction ws as [|w ws IH]; intros acc; simpl; [reflexivity|].
  destruct (w == "value"); [reflexivity|]. now rewrite IH.
Qed.

Lemma name_words_words ws :
  Forall (fun w => w <> ""%string) ws -> Forall (fun w => w <> ""%string) (name_words ws).
Proof.
  induction 1 as [|w ws Hw Hws IH]; simpl; [constructor|].
  destruct (String.eqb w "value"); [constructor | now constructor].
Qed.

Lemma value_words_words ws :
  Forall (fun w => w <> ""%string) ws -> Forall (fun w => w <> ""%string) (value_words ws).
Proof.
  induction 1 as [|w ws Hw Hws IH]; simpl; [constructor|].
  now destruct (String.eqb w "value").
Qed.

Lemma tail_words ws :
  Forall (fun w => w <> ""%string) ws -> Forall (fun w => w <> ""%string) (tail ws).
Proof. destruct 1; [constructor | assumption]. Qed.

(** What [setoption] reads from the words of a line. *)
Lemma setoption_parse line :
  read_name "" (tail (tokenize line))
  = (join_words (name_words (tail (tokenize line))),
     value_words (tail (tokenize line)))
  /\ read_value "" (value_words (tail (tokenize line)))
     = join_words (value_words (tail (tokenize line))).
Proof.
  pose proof (tail_words _ (tokenize_words line)) as Hws.
  rewrite read_name_value.
  rewrite (read_value_join _ (name_words_words _ Hws)).
  now rewrite (read_value_join _ (value_words_words _ Hws)).
Qed.

(** C7. For the words of any line given to [setoption], the name is made of
    the words after the first one up to [value] and the value of the words
    after [value], joined by single spaces. If the registry has the name, its
    entry becomes the value text and nothing is printed; if not,
    [No such option: ] and the name are printed and the registry is left as
    it was. *)
Theorem setoption_writes line s :
  let ws := tail (tokenize line) in
  let name := join_words (name_words ws) in
  let value := join_words (value_words ws) in
  let s' := setoption (tokenize line) s in
  (is_Some (options s !! name) ->
     options s' = <[name := value]> (options s)
     /\ options s' !! name = Some value
     /\ cout s' = cout s)
  /\ (options s !! name = None ->
        options s' = options s
        /\ cout s' = cout s ++ [Line ("No such option: " +:+ name)])
  /\ pos s' = pos s /\ states s' = states s /\ world s' = world s
  /\ cerr s' = cerr s.
Proof.
  intros ws name value s'. subst s'. unfold setoption.
  destruct (setoption_parse line) as [-> ->].
  fold ws. fold name. fold value. unfold Options_count, Options_assign.
  split; [|split].
  - intros Hsome. rewrite bool_decide_eq_true_2 by assumption. simpl.
    repeat split. apply lookup_insert_eq.
  - intros Hnone. rewrite bool_decide_eq_false_2; [simpl; tauto|].
    rewrite Hnone. now intros [? ?].
  - destruct (bool_decide _); simpl; tauto.
Qed.

Lemma name_words_all ws : ~ In "value"%string ws -> name_words ws = ws.
Proof.
  induction ws as [|w ws IH]; simpl; [reflexivity|]. intros Hnot.
  destruct (String.eqb_spec w "value") as [->|_]; [exfalso; apply Hnot; now left|].
  rewrite IH; [reflexivity|]. intros Hin. apply Hnot. now right.
Qed.

Lemma value_words_none ws : ~ In "value"%string ws -> value_words ws = [].
Proof.
  induction ws as [|w ws IH]; simpl; [reflexivity|]. intros Hnot.
  destruct (String.eqb_spec w "value") as [->|_]; [exfalso; apply Hnot; now left|].
  apply IH. intros Hin. apply Hnot. now right.
Qed.

(** C10. When no word after the first is [value], all of them make up the
    name and the value is the empty string: an entry of the registry under
    that name is overwritten with the empty string. *)
Theorem setoption_without_value line s
  (Hvalue : ~ In "value"%string (tail (tokenize line))) :
  let name := join_words (tail (tokenize line)) in
  let s' := setoption (tokenize line) s in
  fst (read_name "" (tail (tokenize line))) = name
  /\ read_value "" (snd (read_name "" (tail (tokenize line)))) = ""%string
  /\ (is_Some (options s !! name) ->
        options s' = <[name := ""%string]> (options s)
        /\ options s' !! name = Some ""%string).
Proof.
  intros name s'.
  destruct (setoption_parse line) as [Hname Hval].
  rewrite (name_words_all _ Hvalue), (value_words_none _ Hvalue) in *.
  fold name in Hname. rewrite Hname.
  split; [reflexivity|]. split; [reflexivity|].
  intros Hsome. subst s'. unfold setoption. rewrite Hname.
  unfold Options_count, Options_assign.
  rewrite bool_decide_eq_true_2 by assumption. simpl.
  split; [reflexivity | apply lookup_insert_eq].
Qed.

End DispatchProperties.

(** C5 on the stand-in engine, for a line of two spaces and a tab. *)
Lemma loop_step_blank_witness :
  blank (String " " (String " " (String (ascii_of_N 9) ""))) = true
  /\ cout (snd (loop_step (T := Sample.types) (E := Sample.engine)
                  (String " " (String " " (String (ascii_of_N 9) "")))
                  Sample.session))
     = [Line ("Unknown command: "
              +:+ String " " (String " " (String (ascii_of_N 9) "")))].
Proof.
  split; [reflexivity|].
  exact (proj1 (proj2 (loop_step_blank (T := Sample.types) (E := Sample.engine)
                         (String " " (String " " (String (ascii_of_N 9) "")))
                         Sample.session eq_refl))).
Defined.

(** C5 fails as stated: the empty line produces output, the line
    [Unknown command: ]. *)
Lemma loop_step_empty_line_counterexample :
  cout Sample.session = []
  /\ cout (snd (loop_step (T := Sample.types) (E := Sample.engine) ""
                  Sample.session))
     = [Line "Unknown command: "].
Proof. split; reflexivity. Qed.

(** C7 on the stand-in engine, whose registry holds [UCI_Chess960] only. *)
Lemma setoption_writes_witness :
  options (setoption (E := Sample.engine)
             (tokenize "name UCI_Chess960 value true") Sample.session)
    !! "UCI_Chess960"%string = Some "true"%string
  /\ cout (setoption (E := Sample.engine)
             (tokenize "name DoesNotExist value 5") Sample.session)
     = [Line "No such option: DoesNotExist"]
  /\ options (setoption (E := Sample.engine)
                (tokenize "name DoesNotExist value 5") Sample.session)
     = options Sample.session.
Proof.
  split; [|split].
  - destruct (setoption_writes (E := Sample.engine)
                "name UCI_Chess960 value true" Sample.session) as [Hset _].
    apply Hset. exists "false"%string. reflexivity.
  - destruct (setoption_writes (E := Sample.engine)
                "name DoesNotExist value 5" Sample.session) as [_ [Hnone _]].
    apply Hnone. reflexivity.
  - destruct (setoption_writes (E := Sample.engine)
                "name DoesNotExist value 5" Sample.session) as [_ [Hnone _]].
    apply Hnone. reflexivity.
Defined.

(** C10 on the stand-in engine: [setoption name UCI_Chess960] empties the
    entry. *)
Lemma setoption_without_value_witness :
  ~ In "value"%string (tail (tokenize "name UCI_Chess960"))
  /\ options (setoption (E := Sample.engine)
                (tokenize "name UCI_Chess960") Sample.session)
       !! "UCI_Chess960"%string = Some ""%string.
Proof.
  assert (Hvalue : ~ In "value"%string (tail (tokenize "name UCI_Chess960"))).
  { vm_compute. intros [H|[]]. discriminate H. }
  split; [exact Hvalue|].
  destruct (setoption_without_value (E := Sample.engine)
              "name UCI_Chess960" Sample.session Hvalue) as [_ [_ Hset]].
  apply Hset. exists "false"%string. reflexivity.
Defined.

(** ** Numerals *)

Section Numerals.







End Numerals.

(** ** Properties of go *)

Section GoProperties.
Context {T : Types} {E : Engine}.

(** One turn of the loop of [go]. *)
Lemma go_loop_step p token iss l pm :
  go_loop p (token :: iss) l pm
  = match go_word token with
    | WSearchmoves => (searchmoves_loop p iss l, pm)
    | WLimit f =>
        match extract_int (limit_min f) (limit_max f) iss with
        | Extracted v iss'' => go_loop p iss'' (set_limit f v l) pm
        | Failed (Some w) => (set_limit f w l, pm)
        | Failed None => (l, pm)
        end
    | WInfinite => go_loop p iss (set_infinite 1 l) pm
    | WPonder => go_loop p iss l true
    | WOther => go_loop p iss l pm
    end.
Proof.
  simp go_loop. destruct (go_word token); simp go_loop; try reflexivity.
  destruct (inspect (extract_int (limit_min f) (limit_max f) iss))
    as [[v iss''|[w|]] Hr]; simp go_loop; rewrite Hr; reflexivity.
Qed.

Lemma searchmoves_loop_map p iss l :
  searchmoves_loop p iss l
  = set_searchmoves (searchmoves l ++ map (UCI.to_move p) iss) l.
Proof.
  revert l. induction iss as [|token iss IH]; intros l; simpl.
  - rewrite app_nil_r. now destruct l.
  - rewrite IH. unfold set_searchmoves. simpl. now rewrite <- app_assoc.
Qed.

Lemma go_word_limit f : go_word (limit_keyword f) = WLimit f.
Proof. destruct f; reflexivity. Qed.


Lemma go_word_plain w :
  w <> "searchmoves"%string -> (forall f, w <> limit_keyword f) ->
  go_word w = WInfinite \/ go_word w = WPonder \/ go_word w = WOther.
Proof.
  intros Hs Hf. unfold go_word.
  destruct (String.eqb_spec w "searchmoves"); [contradiction|].
  destruct (String.eqb_spec w "wtime"); [now destruct (Hf Fwtime)|].
  destruct (String.eqb_spec w "btime"); [now destruct (Hf Fbtime)|].
  destruct (String.eqb_spec w "winc"); [now destruct (Hf Fwinc)|].
  destruct (String.eqb_spec w "binc"); [now destruct (Hf Fbinc)|].
  destruct (String.eqb_spec w "movestogo"); [now destruct (Hf Fmovestogo)|].
  destruct (String.eqb_spec w "depth"); [now destruct (Hf Fdepth)|].
  destruct (String.eqb_spec w "nodes"); [now destruct (Hf Fnodes)|].
  destruct (String.eqb_spec w "movetime"); [now destruct (Hf Fmovetime)|].
  destruct (String.eqb_spec w "mate"); [now destruct (Hf Fmate)|].
  destruct (String.eqb_spec w "perft"); [now destruct (Hf Fperft)|].
  destruct (w == "infinite"); [now left|].
  destruct (w == "ponder"); [right; now left | right; now right].
Qed.

Lemma extract_int_numeral f w v iss :
  numeral f w v ->
  extract_int (limit_min f) (limit_max f) (w :: iss) = Extracted v iss.
Proof.
  intros [Hread [Hlo Hhi]]. unfold extract_int. rewrite Hread.
  destruct (Z.ltb_spec v (limit_min f)); [lia|].
  destruct (Z.ltb_spec (limit_max f) v); [lia|].
  reflexivity.
Qed.



(** The clauses before [searchmoves] are read through without touching the
    list of root moves. *)
Lemma go_clauses_skip p pre :
  go_clauses pre ->
  forall l pm, exists l' pm',
    searchmoves l' = searchmoves l
    /\ forall rest, go_loop p (pre ++ rest) l pm = go_loop p rest l' pm'.
Proof.
  induction 1 as [|f w v ws Hnum Hws IH|w ws Hs Hf Hws IH]; intros l pm.
  - exists l, pm. split; reflexivity.
  - destruct (IH (set_limit f v l) pm) as (l' & pm' & Hsm & Hgo).
    exists l', pm'. split; [exact Hsm|].
    intros rest. simpl. rewrite go_loop_step, go_word_limit.
    now rewrite (extract_int_numeral f w v (ws ++ rest)).
  - destruct (go_word_plain w Hs Hf) as [Hw|[Hw|Hw]].
    + destruct (IH (set_infinite 1 l) pm) as (l' & pm' & Hsm & Hgo).
      exists l', pm'. split; [exact Hsm|].
      intros rest. simpl. now rewrite go_loop_step, Hw.
    + destruct (IH l true) as (l' & pm' & Hsm & Hgo).
      exists l', pm'. split; [exact Hsm|].
      intros rest. simpl. now rewrite go_loop_step, Hw.
    + destruct (IH l pm) as (l' & pm' & Hsm & Hgo).
      exists l', pm'. split; [exact Hsm|].
      intros rest. simpl. now rewrite go_loop_step, Hw.
Qed.

(** C9, as the code has it. In a [go] command where [searchmoves] comes after
    clauses [pre], each numeric keyword among them being followed by a
    numeral its member can hold, every word [post] after [searchmoves] gives
    one entry of the list of root moves, in order: what the word decodes to,
    which is [MOVE_NONE] for a word that is the text of no legal move. The
    list, empty before, has as many entries as there are words after
    [searchmoves]. *)
Theorem go_searchmoves_entries p pre post l pm
  (Hpre : go_clauses pre) (Hnew : searchmoves l = []) :
  let limits := fst (go_loop p (pre ++ "searchmoves"%string :: post) l pm) in
  searchmoves limits = map (UCI.to_move p) post
  /\ List.length (searchmoves limits) = List.length post
  /\ (forall i w, post !! i = Some w ->
        searchmoves limits !! i = Some (UCI.to_move p w))
  /\ (forall i w, post !! i = Some w ->
        (forall m, In m (legal_moves p) -> UCI.move m <> UCI.lower_promotion w) ->
        searchmoves limits !! i = Some MOVE_NONE).
Proof.
  intros limits.
  assert (Hlist : searchmoves limits = map (UCI.to_move p) post).
  { subst limits.
    destruct (go_clauses_skip p pre Hpre l pm) as (l' & pm' & Hsm & Hgo).
    rewrite Hgo, go_loop_step. simpl. rewrite searchmoves_loop_map. simpl.
    now rewrite Hsm, Hnew. }
  assert (Hentry : forall i w, post !! i = Some w ->
            searchmoves limits !! i = Some (UCI.to_move p w)).
  { intros i w Hw. rewrite Hlist, list_lookup_fmap, Hw. reflexivity. }
  split; [exact Hlist|]. split; [|split].
  - rewrite Hlist. apply length_map.
  - exact Hentry.
  - intros i w Hw Hnone. rewrite (Hentry i w Hw). f_equal.
    unfold UCI.to_move. now apply scan_moves_none.
Qed.

End GoProperties.


(** C9 on the stand-in engine: three words after [searchmoves], three
    entries, the two that are no legal move being [MOVE_NONE]. *)
Lemma go_searchmoves_entries_witness :
  go_clauses (E := Sample.engine) ["depth"; "12"; "infinite"]%string
  /\ searchmoves
       (fst (go_loop (T := Sample.types) (E := Sample.engine)
               (pos Sample.session)
               (["depth"; "12"; "infinite"]%string ++
                "searchmoves"%string :: ["e3e4"; "zz"; "e2e4"]%string)
               (LimitsType_new (Engine := Sample.engine)) false))
     = [Sample.e3e4; 0; 0].
Proof.
  assert (Hpre : go_clauses (E := Sample.engine)
                   ["depth"; "12"; "infinite"]%string).
  { apply (go_clauses_limit Fdepth "12"%string 12).
    - split; [reflexivity|]. vm_compute. split; discriminate.
    - apply go_clauses_word; [discriminate| |constructor].
      intros f. destruct f; discriminate. }
  split; [exact Hpre|].
  destruct (go_searchmoves_entries (T := Sample.types) (E := Sample.engine)
              (pos Sample.session) _ ["e3e4"; "zz"; "e2e4"]%string
              (LimitsType_new (Engine := Sample.engine)) false Hpre eq_refl) as [Hlist _].
  rewrite Hlist. reflexivity.
Defined.

(** C9 fails as stated: in [go depth x searchmoves e3e4 d3d4] the extraction
    of a number from [x] fails, after which the stream yields no word, and in
    [go depth searchmoves e3e4 d3d4] it fails on [searchmoves] itself. Both
    commands contain [searchmoves] followed by two words, and the list of
    root moves stays empty. *)
Lemma go_searchmoves_unreached_counterexample :
  searchmoves
    (fst (go_loop (T := Sample.types) (E := Sample.engine) (pos Sample.session)
            ["depth"; "x"; "searchmoves"; "e3e4"; "d3d4"]%string
            (LimitsType_new (Engine := Sample.engine)) false)) = []
  /\ searchmoves
       (fst (go_loop (T := Sample.types) (E := Sample.engine)
               (pos Sample.session)
               ["depth"; "searchmoves"; "e3e4"; "d3d4"]%string
               (LimitsType_new (Engine := Sample.engine)) false)) = []
  /\ List.length ["e3e4"; "d3d4"]%string = 2%nat.
Proof. split; [|split]; reflexivity. Qed.

(** ** Properties of bench *)

Section BenchProperties.
Context {T : Types} {E : Engine}.










End BenchProperties.


